(** * Amortization schedules of [src/mortgage.py]

    A shallow embedding of [MortgageParams], [MortgageCalculator] and
    [MortgageSchedule], followed by the properties the specification
    states about them and by further properties of the code.

    Number model.  A Python [float] is read as an exact real number ([R]):
    [+], [-], [*] and [/] are the field operations and the comparisons are
    the order of the reals, so binary64 rounding, overflow, infinities and
    NaN are outside the model.  A Python [int] is a [Z]; where the source
    mixes the two, the integer is injected with [IZR].  Exceptions are
    values of [exn] carried by the [result] monad. *)

From Stdlib Require Import Reals Lra Lia ZArith String List Bool Sorted.
Import ListNotations.

Local Open Scope string_scope.
Local Open Scope Z_scope.
Local Open Scope R_scope.

(** ** Exceptions and the result monad *)

Inductive exn : Type :=
| ValueError (msg : string)
| KeyError (msg : string)
| ZeroDivisionError
| ComplexResult.

Inductive result (A : Type) : Type :=
| Ok (a : A)
| Raise (e : exn).

Arguments Ok {A} a.
Arguments Raise {A} e.

Definition bind {A B : Type} (c : result A) (k : A -> result B) : result B :=
  match c with
  | Ok a => k a
  | Raise e => Raise e
  end.

Notation "x <- c ;; k" := (bind c (fun x => k))
  (at level 61, c at next level, right associativity).
Notation "c ;;; k" := (bind c (fun _ => k))
  (at level 61, right associativity).

(** ** Comparisons and arithmetic of Python floats *)

Definition float_le (x y : R) : bool := if Rle_dec x y then true else false.
Definition float_lt (x y : R) : bool := if Rlt_dec x y then true else false.
Definition float_gt (x y : R) : bool := float_lt y x.
Definition float_eq (x y : R) : bool := if Req_dec_T x y then true else false.

(** [x / y] with a computed divisor: a zero divisor raises. *)
Definition float_div (x y : R) : result R :=
  if float_eq y 0 then Raise ZeroDivisionError else Ok (x / y).

Definition is_integer (y : R) : bool := float_eq (IZR (Int_part y)) y.

(** [x ** y], in the order of the case analysis of the interpreter:
    a zero exponent gives 1; a zero base gives 0, or raises for a negative
    exponent; a negative base is raised to an integral exponent, and with
    any other exponent the value is a complex number, which this model
    does not carry ([ComplexResult]); a positive base goes to the power
    function. *)
Definition float_pow (x y : R) : result R :=
  if float_eq y 0 then Ok 1
  else if float_eq x 0 then
    (if float_lt y 0 then Raise ZeroDivisionError else Ok 0)
  else if float_lt x 0 then
    (if is_integer y then Ok (powerRZ x (Int_part y)) else Raise ComplexResult)
  else Ok (Rpower x y).

(** ** [MortgageParams] *)

Record MortgageParams : Type := mkMortgageParams {
  principal : R;
  quoted_rate_percent : R;
  amort_years : Z;
  term_years : Z
}.

Definition validate (self : MortgageParams) : result unit :=
  if float_le (principal self) 0 then
    Raise (ValueError "Principal must be positive.")
  else if float_lt (quoted_rate_percent self) 0 then
    Raise (ValueError "Quoted rate percent must be non-negative.")
  else if (amort_years self <=? 0)%Z then
    Raise (ValueError "Amortization years must be positive.")
  else if (term_years self <=? 0)%Z then
    Raise (ValueError "Term years must be positive.")
  else if (term_years self >? amort_years self)%Z then
    Raise (ValueError "Term years cannot exceed amortization years.")
  else Ok tt.

(** ** [MortgageCalculator] *)

Definition ear_from_semi_annual_quote (quoted_rate_percent : R) : result R :=
  let j := quoted_rate_percent / 100 in
  p <- float_pow (1 + j / 2) 2 ;;
  Ok (p - 1).

Definition pva (rate : R) (n : Z) : result R :=
  if float_eq rate 0 then Ok (IZR n)
  else
    p <- float_pow (1 + rate) (IZR (- n)) ;;
    float_div (1 - p) rate.

Definition periodic_rate (ear : R) (m : Z) : result R :=
  e <- float_div 1 (IZR m) ;;
  p <- float_pow (1 + ear) e ;;
  Ok (p - 1).

Definition level_payment (principal quoted_rate_percent : R)
    (amort_years m : Z) : result R :=
  ear <- ear_from_semi_annual_quote quoted_rate_percent ;;
  r <- periodic_rate ear m ;;
  let n := (amort_years * m)%Z in
  f <- pva r n ;;
  float_div principal f.

(** ** [MortgageSchedule] *)

(** A Python [dict] with string keys, in insertion order. *)
Definition dict (V : Type) : Type := list (string * V).

Fixpoint dict_get {V : Type} (k : string) (d : dict V) : option V :=
  match d with
  | [] => None
  | (k', v) :: d' => if String.eqb k k' then Some v else dict_get k d'
  end.

(** [d[k] = v]: an existing key keeps its place, a new one goes last. *)
Fixpoint dict_set {V : Type} (k : string) (v : V) (d : dict V) : dict V :=
  match d with
  | [] => [(k, v)]
  | (k', v') :: d' =>
      if String.eqb k k' then (k', v) :: d' else (k', v') :: dict_set k v d'
  end.

Definition FREQS : dict (Z * string) :=
  [ ("monthly",        (12%Z, "Monthly"));
    ("semi_monthly",   (24%Z, "Semi-monthly"));
    ("bi_weekly",      (26%Z, "Bi-weekly"));
    ("weekly",         (52%Z, "Weekly"));
    ("rapid_biweekly", (26%Z, "Rapid Bi-weekly"));
    ("rapid_weekly",   (52%Z, "Rapid Weekly")) ].

Record MortgageSchedule : Type := mkMortgageSchedule {
  params : MortgageParams;
  _ear : R;
  _standard_monthly_pmt : R
}.

(** [MortgageSchedule.__init__] *)
Definition __init__ (params : MortgageParams) : result MortgageSchedule :=
  validate params ;;;
  ear <- ear_from_semi_annual_quote (quoted_rate_percent params) ;;
  pmt <- level_payment (principal params) (quoted_rate_percent params)
           (amort_years params) 12 ;;
  Ok (mkMortgageSchedule params ear pmt).

(** The [for] loop of [payment_amounts] over [FREQS.items()]. *)
Fixpoint payments_loop (p : MortgageParams) (items : dict (Z * string))
    (payments : dict R) : result (dict R) :=
  match items with
  | [] => Ok payments
  | (key, (m, _)) :: items' =>
      if String.prefix "rapid" key then payments_loop p items' payments
      else
        v <- level_payment (principal p) (quoted_rate_percent p)
               (amort_years p) m ;;
        payments_loop p items' (dict_set key v payments)
  end.

(** [payments] as it stands before the rounding comprehension. *)
Definition payments_unrounded (self : MortgageSchedule) : result (dict R) :=
  let p := params self in
  payments <- payments_loop p FREQS [] ;;
  let payments := dict_set "rapid_biweekly" (_standard_monthly_pmt self / 2) payments in
  let payments := dict_set "rapid_weekly" (_standard_monthly_pmt self / 4) payments in
  Ok payments.

Section Rounding.

(** [np.round(v, decimals)] belongs to numpy, not to this repository. *)
Variable np_round : R -> Z -> R.

Definition payment_amounts (self : MortgageSchedule) : result (dict R) :=
  payments <- payments_unrounded self ;;
  Ok (map (fun kv => (fst kv, np_round (snd kv) 2%Z)) payments).

End Rounding.

(** One tuple of [rows]. *)
Record Row : Type := mkRow {
  Period : Z;
  StartBalance : R;
  Interest : R;
  Payment : R;
  EndBalance : R
}.

(** The returned [DataFrame]: its rows and the two [attrs]. *)
Record DataFrame : Type := mkDataFrame {
  rows : list Row;
  FrequencyLabel : string;
  PaymentsPerYear : Z
}.

(** The [for t in range(...)] loop.  [iters] is the number of values the
    range still holds, [t] the next of them, [balance] the loop variable
    of the same name; the result is what the loop appends to [rows]. *)
Fixpoint schedule_loop (r payment : R) (iters : nat) (t : Z) (balance : R)
    : list Row :=
  match iters with
  | O => []
  | S iters' =>
      let start := balance in
      let interest := start * r in
      let principal_repay := payment - interest in
      if float_gt principal_repay start then
        let payment_eff := start + interest in
        let end_ := 0 in
        [mkRow t start interest payment_eff end_]
      else
        let end_ := start - principal_repay in
        mkRow t start interest payment end_ ::
          (if float_le end_ 0.01 then []
           else schedule_loop r payment iters' (t + 1)%Z end_)
  end.

(** The payment [build_schedule_df] settles on for a known key. *)
Definition schedule_payment (self : MortgageSchedule) (freq_key : string)
    (m : Z) : result R :=
  let p := params self in
  if String.eqb freq_key "rapid_biweekly" || String.eqb freq_key "rapid_weekly"
  then
    Ok (_standard_monthly_pmt self
          / (if String.eqb freq_key "rapid_biweekly" then 2 else 4))
  else
    level_payment (principal p) (quoted_rate_percent p) (amort_years p) m.

Definition build_schedule_df (self : MortgageSchedule) (freq_key : string)
    : result DataFrame :=
  match dict_get freq_key FREQS with
  | None => Raise (KeyError ("Unknown frequency: " ++ freq_key))
  | Some (m, label) =>
      let p := params self in
      r <- periodic_rate (_ear self) m ;;
      payment <- schedule_payment self freq_key m ;;
      let n_term := (term_years p * m)%Z in
      let balance := principal p in
      Ok (mkDataFrame
            (schedule_loop r payment (Z.to_nat n_term) 1%Z balance)
            label m)
  end.

(** [MortgageSchedule(params).build_schedule_df(freq_key)], the way the
    callers ([all_schedules_to_excel], [plot_balances], the runner) come
    to a schedule. *)
Definition schedule_for (params : MortgageParams) (freq_key : string)
    : result DataFrame :=
  self <- __init__ params ;;
  build_schedule_df self freq_key.


(** [all_schedules_to_excel].  The [ExcelWriter] is the list of sheets it
    has been handed by [to_excel], each a sheet name and a table, in the
    order of the calls; the file behind [path] is not part of the model. *)
Fixpoint excel_loop (self : MortgageSchedule) (keys : list string)
    (writer : list (string * DataFrame)) : result (list (string * DataFrame)) :=
  match keys with
  | [] => Ok writer
  | key :: keys' =>
      df <- build_schedule_df self key ;;
      match dict_get key FREQS with
      | None => Raise (KeyError key)
      | Some (_, label) => excel_loop self keys' (writer ++ [(label, df)])
      end
  end.

Definition all_schedules_to_excel (self : MortgageSchedule)
    : result (list (string * DataFrame)) :=
  excel_loop self (map fst FREQS) [].




(** ** Vocabulary of the specification *)

(** The parameters [validate] lets through. *)
Definition valid (p : MortgageParams) : Prop :=
  0 < principal p /\ 0 <= quoted_rate_percent p
  /\ (1 <= term_years p <= amort_years p)%Z.

(** What each message of [validate] says about the parameters. *)
Definition names_violation (p : MortgageParams) (msg : string) : Prop :=
  (msg = "Principal must be positive." /\ principal p <= 0)
  \/ (msg = "Quoted rate percent must be non-negative."
      /\ quoted_rate_percent p < 0)
  \/ (msg = "Amortization years must be positive." /\ (amort_years p <= 0)%Z)
  \/ (msg = "Term years must be positive." /\ (term_years p <= 0)%Z)
  \/ (msg = "Term years cannot exceed amortization years."
      /\ (term_years p > amort_years p)%Z).

(** The keys of [FREQS]. *)
Definition recognized (freq_key : string) : Prop :=
  In freq_key (map fst FREQS).

(** [builds p freq_key m r pay df]: the object built on [p] answers the
    request for [freq_key] with the schedule [df], having looked up [m]
    payments per year and computed the periodic rate [r] and the scheduled
    payment [pay]. *)
Definition builds (p : MortgageParams) (freq_key : string) (m : Z)
    (r pay : R) (df : DataFrame) : Prop :=
  exists self label,
    __init__ p = Ok self
    /\ dict_get freq_key FREQS = Some (m, label)
    /\ periodic_rate (_ear self) m = Ok r
    /\ schedule_payment self freq_key m = Ok pay
    /\ build_schedule_df self freq_key = Ok df.


(** The value of [pva] on a base [1 + rate > 0]: the present value of
    [n] payments of 1. *)
Definition annuity (rate : R) (n : Z) : R :=
  if float_eq rate 0 then IZR n
  else (1 - Rpower (1 + rate) (IZR (- n))) / rate.

(** The four keys of [FREQS] that are not rapid ones. *)
Definition ordinary (freq_key : string) : Prop :=
  recognized freq_key
  /\ freq_key <> "rapid_biweekly" /\ freq_key <> "rapid_weekly".


(** * Properties *)

(** ** The comparisons decide the order of the reals *)

Lemma float_le_true (x y : R) : float_le x y = true <-> x <= y.
Proof. unfold float_le. destruct (Rle_dec x y); split; intros; try easy. Qed.

Lemma float_le_false (x y : R) : float_le x y = false <-> y < x.
Proof.
  unfold float_le. destruct (Rle_dec x y); split; intros; try easy; lra.
Qed.

Lemma float_lt_true (x y : R) : float_lt x y = true <-> x < y.
Proof. unfold float_lt. destruct (Rlt_dec x y); split; intros; try easy. Qed.

Lemma float_lt_false (x y : R) : float_lt x y = false <-> y <= x.
Proof.
  unfold float_lt. destruct (Rlt_dec x y); split; intros; try easy; lra.
Qed.

Lemma float_gt_true (x y : R) : float_gt x y = true <-> x > y.
Proof. unfold float_gt. rewrite float_lt_true. lra. Qed.

Lemma float_gt_false (x y : R) : float_gt x y = false <-> x <= y.
Proof. unfold float_gt. apply float_lt_false. Qed.

Lemma float_eq_true (x y : R) : float_eq x y = true <-> x = y.
Proof. unfold float_eq. destruct (Req_dec_T x y); split; intros; try easy. Qed.

Lemma float_eq_false (x y : R) : float_eq x y = false <-> x <> y.
Proof. unfold float_eq. destruct (Req_dec_T x y); split; intros; try easy. Qed.

Lemma float_eq_refl (x : R) : float_eq x x = true.
Proof. now apply float_eq_true. Qed.

Lemma float_div_nonzero (x y : R) : y <> 0 -> float_div x y = Ok (x / y).
Proof.
  intros Hy. unfold float_div. apply float_eq_false in Hy. now rewrite Hy.
Qed.

Lemma float_div_zero (x : R) : float_div x 0 = Raise ZeroDivisionError.
Proof. unfold float_div. now rewrite float_eq_refl. Qed.

(** Rewriting a comparison whose outcome the context settles. *)
Ltac decide_cmp :=
  repeat match goal with
  | |- context [float_gt ?x ?y] =>
      first [ rewrite (proj2 (float_gt_true x y)) by lra
            | rewrite (proj2 (float_gt_false x y)) by lra ]
  | |- context [float_eq ?x ?y] =>
      first [ rewrite (proj2 (float_eq_true x y)) by lra
            | rewrite (proj2 (float_eq_false x y)) by lra ]
  | |- context [float_lt ?x ?y] =>
      first [ rewrite (proj2 (float_lt_true x y)) by lra
            | rewrite (proj2 (float_lt_false x y)) by lra ]
  | |- context [float_le ?x ?y] =>
      first [ rewrite (proj2 (float_le_true x y)) by lra
            | rewrite (proj2 (float_le_false x y)) by lra ]
  end.

(** ** Powers *)

Lemma float_pow_pos (x y : R) :
  0 < x -> y <> 0 -> float_pow x y = Ok (Rpower x y).
Proof. intros Hx Hy. unfold float_pow. now decide_cmp. Qed.

Lemma float_pow_zero_exponent (x : R) : float_pow x 0 = Ok 1.
Proof. unfold float_pow. now rewrite float_eq_refl. Qed.

Lemma float_pow_zero_base_neg (y : R) :
  y < 0 -> float_pow 0 y = Raise ZeroDivisionError.
Proof. intros Hy. unfold float_pow. now decide_cmp. Qed.

Lemma Int_part_IZR (z : Z) : Int_part (IZR z) = z.
Proof. symmetry. apply Int_part_spec. lra. Qed.

(** [x ** 2] is the square of [x], whatever the sign of [x]. *)
Lemma float_pow_2 (x : R) : float_pow x 2 = Ok (x * x).
Proof.
  unfold float_pow, is_integer.
  rewrite Int_part_IZR, float_eq_refl.
  decide_cmp.
  destruct (Req_dec_T x 0) as [-> | Hx0].
  - decide_cmp. f_equal. lra.
  - decide_cmp. destruct (Rlt_dec x 0) as [Hneg | Hpos].
    + decide_cmp. f_equal. simpl. lra.
    + decide_cmp. f_equal.
      replace 2 with (INR 2) by (simpl; lra).
      rewrite Rpower_pow by lra. simpl. lra.
Qed.

Lemma ear_value (q : R) :
  ear_from_semi_annual_quote q = Ok ((1 + q / 200) * (1 + q / 200) - 1).
Proof.
  unfold ear_from_semi_annual_quote. rewrite float_pow_2. simpl.
  f_equal. lra.
Qed.

(** ** Validation *)

Lemma validate_ok_iff (p : MortgageParams) : validate p = Ok tt <-> valid p.
Proof.
  unfold validate, valid.
  destruct (float_le (principal p) 0) eqn:Hp;
    [apply float_le_true in Hp | apply float_le_false in Hp].
  { split; [discriminate | lra]. }
  destruct (float_lt (quoted_rate_percent p) 0) eqn:Hq;
    [apply float_lt_true in Hq | apply float_lt_false in Hq].
  { split; [discriminate | lra]. }
  destruct (Z.leb_spec (amort_years p) 0).
  { split; [discriminate | lia]. }
  destruct (Z.leb_spec (term_years p) 0).
  { split; [discriminate | lia]. }
  destruct (Z.gtb_spec (term_years p) (amort_years p)).
  { split; [discriminate | lia]. }
  split; [intros _ | reflexivity]. repeat split; try lra; lia.
Qed.

Lemma validate_raises (p : MortgageParams) (e : exn) :
  validate p = Raise e ->
  exists msg, e = ValueError msg /\ names_violation p msg.
Proof.
  unfold validate, names_violation.
  destruct (float_le (principal p) 0) eqn:Hp.
  { apply float_le_true in Hp. intros [= <-]. eexists. split; [reflexivity|].
    left. now split. }
  destruct (float_lt (quoted_rate_percent p) 0) eqn:Hq.
  { apply float_lt_true in Hq. intros [= <-]. eexists. split; [reflexivity|].
    right; left. now split. }
  destruct (Z.leb_spec (amort_years p) 0).
  { intros [= <-]. eexists. split; [reflexivity|].
    right; right; left. now split. }
  destruct (Z.leb_spec (term_years p) 0).
  { intros [= <-]. eexists. split; [reflexivity|].
    right; right; right; left. now split. }
  destruct (Z.gtb_spec (term_years p) (amort_years p)).
  { intros [= <-]. eexists. split; [reflexivity|].
    right; right; right; right. split; [reflexivity | lia]. }
  discriminate.
Qed.

Lemma init_stops_at_validation (p : MortgageParams) (e : exn) :
  validate p = Raise e -> __init__ p = Raise e.
Proof. intros H. unfold __init__. now rewrite H. Qed.

(** C1.  Parameters with [term_years > amort_years], and parameters with
    [principal = 0], do not pass validation: [validate] raises a
    [ValueError] whose message names a condition the parameters violate
    (the principal, when the principal is zero), and [__init__] returns
    that same error, so nothing after the call to [validate] is computed. *)
Theorem invalid_params_fail_validation (p : MortgageParams) :
  (term_years p > amort_years p)%Z \/ principal p = 0 ->
  exists msg,
    validate p = Raise (ValueError msg)
    /\ names_violation p msg
    /\ (principal p = 0 -> msg = "Principal must be positive.")
    /\ __init__ p = Raise (ValueError msg).
Proof.
  intros Hbad.
  destruct (validate p) as [[] | e] eqn:Hv.
  - apply validate_ok_iff in Hv. destruct Hv as (Hp & _ & Ht).
    destruct Hbad; [lia | lra].
  - destruct (validate_raises p e Hv) as (msg & -> & Hmsg).
    exists msg. repeat split; auto.
    + intros Hz. revert Hv. unfold validate.
      rewrite (proj2 (float_le_true (principal p) 0)) by lra. now intros [= <-].
    + now apply init_stops_at_validation.
Qed.

Lemma invalid_params_fail_validation_witness :
  exists msg,
    validate (mkMortgageParams 500000 5.49 5 25) = Raise (ValueError msg)
    /\ names_violation (mkMortgageParams 500000 5.49 5 25) msg
    /\ (principal (mkMortgageParams 500000 5.49 5 25) = 0 ->
        msg = "Principal must be positive.")
    /\ __init__ (mkMortgageParams 500000 5.49 5 25) = Raise (ValueError msg).
Proof.
  apply (invalid_params_fail_validation (mkMortgageParams 500000 5.49 5 25)).
  left. reflexivity.
Defined.

(** ** The present-value annuity factor *)

Lemma pva_zero_rate (n : Z) : pva 0 n = Ok (IZR n).
Proof. unfold pva. now rewrite float_eq_refl. Qed.

Lemma pva_nonzero_rate (rate : R) (n : Z) :
  rate <> 0 ->
  pva rate n = (p <- float_pow (1 + rate) (IZR (- n)) ;; Ok ((1 - p) / rate)).
Proof.
  intros Hr. unfold pva. rewrite (proj2 (float_eq_false rate 0) Hr).
  destruct (float_pow (1 + rate) (IZR (- n))) as [p | e]; simpl.
  - now apply float_div_nonzero.
  - reflexivity.
Qed.

Lemma pva_positive_base (rate : R) (n : Z) :
  rate <> 0 -> 0 < 1 + rate ->
  pva rate n = Ok ((1 - Rpower (1 + rate) (IZR (- n))) / rate).
Proof.
  intros Hr Hbase. rewrite (pva_nonzero_rate rate n Hr).
  destruct (Req_dec_T (IZR (- n)) 0) as [Hz | Hnz].
  - rewrite Hz, float_pow_zero_exponent, Rpower_O by lra. reflexivity.
  - now rewrite float_pow_pos.
Qed.

(** C8.  [pva] returns [n] when the rate is zero.  For every other rate
    it is [(1 - (1 + rate) ** (-n)) / rate]: the outcome of the power,
    followed by a division that [rate <> 0] keeps away from a zero
    divisor; with a positive base [1 + rate] that is a value. *)
Theorem pva_guards_zero_rate (rate : R) (n : Z) :
  (rate = 0 -> pva rate n = Ok (IZR n))
  /\ (rate <> 0 ->
      pva rate n =
        (p <- float_pow (1 + rate) (IZR (- n)) ;; Ok ((1 - p) / rate)))
  /\ (rate <> 0 -> 0 < 1 + rate ->
      pva rate n = Ok ((1 - Rpower (1 + rate) (IZR (- n))) / rate)).
Proof.
  split; [| split].
  - intros ->. apply pva_zero_rate.
  - apply pva_nonzero_rate.
  - apply pva_positive_base.
Qed.

Lemma pva_guards_zero_rate_witness :
  pva 0 300 = Ok (IZR 300)
  /\ pva (1 / 200) 300
     = Ok ((1 - Rpower (1 + 1 / 200) (IZR (- 300))) / (1 / 200)).
Proof.
  split.
  - apply (proj1 (pva_guards_zero_rate 0 300)). reflexivity.
  - apply (proj2 (proj2 (pva_guards_zero_rate (1 / 200) 300))); lra.
Defined.

(** ** The effective annual rate *)



(** ** Rates and payments of validated parameters *)

Lemma Rpower_ge_1 (x y : R) : 1 <= x -> 0 <= y -> 1 <= Rpower x y.
Proof.
  intros Hx Hy. rewrite <- (Rpower_O x) by lra. now apply Rle_Rpower.
Qed.

Lemma Rpower_pos (x y : R) : 0 < Rpower x y.
Proof. unfold Rpower. apply exp_pos. Qed.

Lemma periodic_rate_value (ear : R) (m : Z) :
  0 <= ear -> (0 < m)%Z ->
  periodic_rate ear m = Ok (Rpower (1 + ear) (1 / IZR m) - 1)
  /\ 0 <= Rpower (1 + ear) (1 / IZR m) - 1.
Proof.
  intros He Hm.
  assert (HmR : 0 < IZR m) by now apply IZR_lt.
  assert (Hinv : 0 < 1 / IZR m) by now apply Rdiv_lt_0_compat; [lra |].
  unfold periodic_rate.
  rewrite float_div_nonzero by lra. simpl.
  rewrite float_pow_pos by lra. simpl. split; [reflexivity |].
  pose proof (Rpower_ge_1 (1 + ear) (1 / IZR m)). lra.
Qed.

(** The factor is positive and stays below [1 / r]. *)
Lemma pva_positive (r : R) (n : Z) :
  0 <= r -> (0 < n)%Z ->
  exists f, pva r n = Ok f /\ 0 < f /\ r * f < 1.
Proof.
  intros Hr Hn.
  assert (HnR : 0 < IZR n) by now apply IZR_lt.
  destruct (Req_dec_T r 0) as [-> | Hr0].
  - exists (IZR n). rewrite pva_zero_rate. repeat split; lra.
  - rewrite pva_positive_base by lra.
    set (p := Rpower (1 + r) (IZR (- n))).
    assert (Hp0 : 0 < p) by apply Rpower_pos.
    assert (Hp1 : p < 1).
    { pose proof (Rpower_lt (1 + r) (IZR (- n)) 0) as Hlt.
      rewrite Rpower_O in Hlt by lra. apply Hlt; [lra |].
      rewrite opp_IZR. lra. }
    exists ((1 - p) / r). split; [reflexivity |]. split.
    + apply Rdiv_lt_0_compat; lra.
    + replace (r * ((1 - p) / r)) with (1 - p) by (field; lra). lra.
Qed.

Lemma level_payment_value (P q : R) (a m : Z) :
  0 < P -> 0 <= q -> (0 < a)%Z -> (0 < m)%Z ->
  exists r pay,
    periodic_rate ((1 + q / 200) * (1 + q / 200) - 1) m = Ok r
    /\ level_payment P q a m = Ok pay
    /\ 0 <= r /\ P * r < pay.
Proof.
  intros HP Hq Ha Hm.
  assert (He : 0 <= (1 + q / 200) * (1 + q / 200) - 1) by nra.
  destruct (periodic_rate_value _ m He Hm) as (Hr & Hr0).
  set (r := Rpower (1 + ((1 + q / 200) * (1 + q / 200) - 1)) (1 / IZR m) - 1) in *.
  destruct (pva_positive r (a * m) Hr0 ltac:(lia)) as (f & Hf & Hf0 & Hrf).
  exists r, (P / f). split; [exact Hr |].
  unfold level_payment. rewrite ear_value. simpl. rewrite Hr. simpl.
  rewrite Hf. simpl. rewrite float_div_nonzero by lra.
  repeat split; try assumption.
  apply (Rmult_lt_reg_r f); [assumption |].
  replace (P / f * f) with P by (field; lra). nra.
Qed.

(** Half the monthly rate covers the bi-weekly rate, a quarter of it the
    weekly rate: the rapid payments, too, exceed the interest. *)
Lemma biweekly_rate_le_half_monthly (x : R) :
  1 <= x ->
  2 * (Rpower x (1 / 26) - 1) <= Rpower x (1 / 12) - 1.
Proof.
  intros Hx.
  assert (H24 : Rpower x (1 / 26) <= Rpower x (1 / 24))
    by (apply Rle_Rpower; lra).
  assert (H1 : 1 <= Rpower x (1 / 26)) by (apply Rpower_ge_1; lra).
  replace (1 / 12) with (1 / 24 + 1 / 24) by lra.
  rewrite Rpower_plus. nra.
Qed.

Lemma weekly_rate_le_quarter_monthly (x : R) :
  1 <= x ->
  4 * (Rpower x (1 / 52) - 1) <= Rpower x (1 / 12) - 1.
Proof.
  intros Hx.
  assert (H48 : Rpower x (1 / 52) <= Rpower x (1 / 48))
    by (apply Rle_Rpower; lra).
  assert (H1 : 1 <= Rpower x (1 / 52)) by (apply Rpower_ge_1; lra).
  replace (1 / 12) with (1 / 48 + 1 / 48 + (1 / 48 + 1 / 48)) by lra.
  rewrite !Rpower_plus.
  set (c := Rpower x (1 / 48)) in *.
  assert (Hc2 : 1 <= c * c) by nra.
  assert (Hc : 2 * (c - 1) <= c * c - 1) by nra.
  nra.
Qed.

(** ** The schedule loop *)

Section Loop.

Variables r payment : R.

Lemma schedule_loop_S (iters : nat) (t : Z) (b : R) :
  schedule_loop r payment (S iters) t b =
    if float_gt (payment - b * r) b then
      [mkRow t b (b * r) (b + b * r) 0]
    else
      mkRow t b (b * r) payment (b - (payment - b * r)) ::
        (if float_le (b - (payment - b * r)) 0.01 then []
         else schedule_loop r payment iters (t + 1)%Z (b - (payment - b * r))).
Proof. reflexivity. Qed.

Lemma schedule_loop_length (iters : nat) (t : Z) (b : R) :
  (length (schedule_loop r payment iters t b) <= iters)%nat.
Proof.
  revert t b. induction iters as [| k IH]; intros t b.
  - simpl. lia.
  - rewrite schedule_loop_S.
    destruct (float_gt (payment - b * r) b); simpl; [lia |].
    destruct (float_le (b - (payment - b * r)) 0.01); simpl; [lia |].
    specialize (IH (t + 1)%Z (b - (payment - b * r))). lia.
Qed.


(** Everything the loop fixes about the row at index [i]: its period, its
    balances in either branch, and whether a row follows it. *)
Lemma schedule_loop_row (iters : nat) (t : Z) (b : R) (i : nat) (row : Row) :
  nth_error (schedule_loop r payment iters t b) i = Some row ->
  Period row = (t + Z.of_nat i)%Z
  /\ (i = O -> StartBalance row = b)
  /\ Interest row = StartBalance row * r
  /\ (payment - Interest row > StartBalance row ->
      Payment row = StartBalance row + Interest row
      /\ EndBalance row = 0
      /\ nth_error (schedule_loop r payment iters t b) (S i) = None)
  /\ (payment - Interest row <= StartBalance row ->
      Payment row = payment
      /\ EndBalance row = StartBalance row - (payment - Interest row))
  /\ (EndBalance row <= 0.01 ->
      nth_error (schedule_loop r payment iters t b) (S i) = None)
  /\ (forall row', nth_error (schedule_loop r payment iters t b) (S i) = Some row' ->
      StartBalance row' = EndBalance row).
Proof.
  revert t b i row. induction iters as [| k IH]; intros t b i row H.
  - destruct i; discriminate.
  - rewrite schedule_loop_S in *.
    destruct (float_gt (payment - b * r) b) eqn:Hcap.
    + apply float_gt_true in Hcap.
      destruct i as [| i]; [| destruct i; discriminate].
      injection H as <-. simpl.
      repeat split; try reflexivity; try lra; try discriminate.
      rewrite Z.add_0_r. reflexivity.
    + apply float_gt_false in Hcap.
      destruct i as [| i].
      * injection H as <-. simpl.
        split; [now rewrite Z.add_0_r |].
        split; [reflexivity |]. split; [reflexivity |].
        split; [intros; lra |]. split; [now split |].
        destruct (float_le (b - (payment - b * r)) 0.01) eqn:Hstop.
        { split; [reflexivity | discriminate]. }
        apply float_le_false in Hstop. split; [intros; lra |].
        intros row' Hnext.
        destruct (IH _ _ O row' Hnext) as (_ & Hstart & _). now apply Hstart.
      * simpl in H.
        destruct (float_le (b - (payment - b * r)) 0.01);
          [destruct i; discriminate |].
        destruct (IH _ _ i row H) as (HP & _ & HI & HC & HN & HS & HCh).
        split; [rewrite HP; lia |].
        split; [discriminate |].
        split; [exact HI |].
        split; [exact HC |]. split; [exact HN |]. split; [exact HS |].
        exact HCh.
Qed.


End Loop.

(** ** Building a schedule from validated parameters *)

Lemma recognized_iff (freq_key : string) :
  recognized freq_key <-> exists m label, dict_get freq_key FREQS = Some (m, label).
Proof.
  unfold recognized, FREQS. simpl. split.
  - intros [<- | [<- | [<- | [<- | [<- | [<- | []]]]]]]; simpl; eauto.
  - intros (m & label & H).
    repeat match type of H with
    | context [String.eqb ?a ?b] =>
        destruct (String.eqb_spec a b); [subst; tauto |]
    end.
    discriminate.
Qed.


(** For validated parameters and a key of [FREQS] nothing raises: the
    object is built, the periodic rate [r] and the payment [pay] are
    values, the payment covers the interest on the principal, and the
    schedule is the outcome of the loop run for [term_years * m] periods
    at most. *)
Lemma build_schedule_df_valid (p : MortgageParams) (freq_key : string)
    (m : Z) (label : string) :
  valid p -> dict_get freq_key FREQS = Some (m, label) ->
  exists self r pay,
    __init__ p = Ok self
    /\ params self = p
    /\ level_payment (principal p) (quoted_rate_percent p) (amort_years p) 12
       = Ok (_standard_monthly_pmt self)
    /\ periodic_rate (_ear self) m = Ok r
    /\ schedule_payment self freq_key m = Ok pay
    /\ 0 <= r /\ principal p * r <= pay
    /\ (0 < m)%Z
    /\ build_schedule_df self freq_key =
         Ok (mkDataFrame
               (schedule_loop r pay (Z.to_nat (term_years p * m)) 1%Z
                  (principal p))
               label m).
Proof.
  intros Hvalid Hkey.
  pose proof (proj2 (validate_ok_iff p) Hvalid) as Hval.
  destruct Hvalid as (HP & Hq & Hterm).
  set (ear := (1 + quoted_rate_percent p / 200)
              * (1 + quoted_rate_percent p / 200) - 1).
  assert (Hear : 0 <= ear) by (unfold ear; nra).
  destruct (level_payment_value (principal p) (quoted_rate_percent p)
              (amort_years p) 12 HP Hq ltac:(lia) ltac:(lia))
    as (r12 & std & Hr12 & Hstd & Hr12pos & Hstdgt).
  fold ear in Hr12.
  destruct (periodic_rate_value ear 12 Hear ltac:(lia)) as (Hr12v & _).
  rewrite Hr12v in Hr12. injection Hr12 as Hr12.
  set (self := mkMortgageSchedule p ear std).
  assert (Hinit : __init__ p = Ok self).
  { unfold __init__. rewrite Hval. simpl. rewrite ear_value. simpl.
    rewrite Hstd. reflexivity. }
  assert (Hm : (0 < m)%Z /\
    exists r pay,
      periodic_rate ear m = Ok r
      /\ schedule_payment self freq_key m = Ok pay
      /\ 0 <= r /\ principal p * r <= pay).
  { unfold FREQS in Hkey. simpl in Hkey.
    repeat match type of Hkey with
    | context [String.eqb ?a ?b] =>
        destruct (String.eqb_spec a b) as [-> | _]
    end; try discriminate; injection Hkey as <- <-; (split; [lia |]).
    1-4: match goal with
         | |- context [periodic_rate _ ?m'] =>
             destruct (level_payment_value (principal p)
                         (quoted_rate_percent p) (amort_years p) m'
                         HP Hq ltac:(lia) ltac:(lia))
               as (r & pay & Hr & Hpay & Hrpos & Hgt)
         end;
         fold ear in Hr; exists r, pay;
         repeat split; try assumption; try lra.
    - destruct (periodic_rate_value ear 26 Hear ltac:(lia)) as (Hr & Hrpos).
      eexists; eexists. split; [exact Hr |]. split; [reflexivity |].
      split; [exact Hrpos |].
      pose proof (biweekly_rate_le_half_monthly (1 + ear) ltac:(lra)).
      simpl. nra.
    - destruct (periodic_rate_value ear 52 Hear ltac:(lia)) as (Hr & Hrpos).
      eexists; eexists. split; [exact Hr |]. split; [reflexivity |].
      split; [exact Hrpos |].
      pose proof (weekly_rate_le_quarter_monthly (1 + ear) ltac:(lra)).
      simpl. nra. }
  destruct Hm as (Hmpos & r & pay & Hr & Hpay & Hrpos & Hcover).
  exists self, r, pay. repeat split; try assumption.
  unfold build_schedule_df. rewrite Hkey. simpl.
  rewrite Hr. simpl. rewrite Hpay. reflexivity.
Qed.

Lemma init_params (p : MortgageParams) (self : MortgageSchedule) :
  __init__ p = Ok self -> params self = p.
Proof.
  unfold __init__. destruct (validate p); [simpl | discriminate].
  destruct (ear_from_semi_annual_quote _); [simpl | discriminate].
  destruct (level_payment _ _ _ _); [simpl | discriminate].
  now intros [= <-].
Qed.

Lemma builds_rows (p : MortgageParams) (freq_key : string) (m : Z)
    (r pay : R) (df : DataFrame) :
  builds p freq_key m r pay df ->
  rows df = schedule_loop r pay (Z.to_nat (term_years p * m)) 1%Z (principal p)
  /\ PaymentsPerYear df = m
  /\ schedule_for p freq_key = Ok df.
Proof.
  intros (self & label & Hinit & Hkey & Hr & Hpay & Hdf).
  pose proof (init_params p self Hinit) as Hp.
  unfold schedule_for. rewrite Hinit. simpl. rewrite Hdf.
  unfold build_schedule_df in Hdf. rewrite Hkey in Hdf. simpl in Hdf.
  rewrite Hr in Hdf. simpl in Hdf. rewrite Hpay in Hdf. simpl in Hdf.
  injection Hdf as <-. rewrite Hp. simpl. auto.
Qed.

(** Validated parameters and a key of [FREQS] always build a schedule. *)
Lemma builds_valid (p : MortgageParams) (freq_key : string) :
  validate p = Ok tt -> recognized freq_key ->
  exists m r pay df,
    builds p freq_key m r pay df
    /\ 0 <= r /\ principal p * r <= pay /\ 0 < principal p
    /\ (0 < term_years p * m)%Z.
Proof.
  intros Hval Hkey. apply validate_ok_iff in Hval.
  apply recognized_iff in Hkey. destruct Hkey as (m & label & Hkey).
  destruct (build_schedule_df_valid p freq_key m label Hval Hkey)
    as (self & r & pay & Hinit & _ & _ & Hr & Hpay & Hr0 & Hcover & Hm & Hdf).
  exists m, r, pay. eexists. split.
  - exists self, label. repeat split; eassumption.
  - destruct Hval as (HP & _ & Hterm). repeat split; try assumption. nia.
Qed.


Lemma valid_example : validate (mkMortgageParams 500000 5.49 25 5) = Ok tt.
Proof.
  apply validate_ok_iff. unfold valid. simpl. repeat split; try lra; lia.
Qed.

Lemma recognized_monthly : recognized "monthly".
Proof. unfold recognized. simpl. auto. Qed.

(** ** The schedule builder *)







(** C6.  For validated parameters and a key of [FREQS], the schedule is
    built and has at most [term_years * PaymentsPerYear] rows, one for
    each turn of the loop. *)
Theorem schedule_length_bounded (p : MortgageParams) (freq_key : string) :
  validate p = Ok tt -> recognized freq_key ->
  exists m label df,
    dict_get freq_key FREQS = Some (m, label)
    /\ schedule_for p freq_key = Ok df
    /\ PaymentsPerYear df = m
    /\ (Z.of_nat (length (rows df)) <= term_years p * m)%Z.
Proof.
  intros Hval Hkey.
  destruct (builds_valid p freq_key Hval Hkey)
    as (m & r & pay & df & Hb & _ & _ & _ & Hpos).
  destruct (builds_rows _ _ _ _ _ _ Hb) as (Hrows & Hm & Hfor).
  destruct Hb as (self & label & _ & Hget & _).
  exists m, label, df. repeat split; try assumption.
  rewrite Hrows.
  pose proof (schedule_loop_length r pay (Z.to_nat (term_years p * m)) 1%Z
                (principal p)).
  lia.
Qed.

Lemma schedule_length_bounded_witness :
  exists m label df,
    dict_get "monthly" FREQS = Some (m, label)
    /\ schedule_for (mkMortgageParams 500000 5.49 25 5) "monthly" = Ok df
    /\ PaymentsPerYear df = m
    /\ (Z.of_nat (length (rows df))
        <= term_years (mkMortgageParams 500000 5.49 25 5) * m)%Z.
Proof.
  apply (schedule_length_bounded (mkMortgageParams 500000 5.49 25 5) "monthly").
  - exact valid_example.
  - exact recognized_monthly.
Defined.



(** ** Errors of the schedule builder *)




(** ** The rapid payments *)




(** ** Concrete runs *)

(** Unfolds the loop turn by turn, settling each comparison. *)
Ltac run_loop := repeat (rewrite schedule_loop_S; decide_cmp); simpl.

Ltac same_rows := repeat (f_equal; try lra).

(** A payment of 60 at 10% per period on a balance of 100: the second
    period would overpay, so it is capped at 50 + 5 and the third period
    is never reached. *)
Example schedule_loop_capped :
  schedule_loop 0.1 60 3 1%Z 100
  = [mkRow 1 100 10 60 50; mkRow 2 50 5 55 0].
Proof. run_loop. same_rows. Qed.

(** Without interest, two payments of 50 clear a balance of 100 exactly:
    the second row is a normal one, and the loop stops at the balance 0
    with one period to spare. *)
Example schedule_loop_near_zero :
  schedule_loop 0 50 3 1%Z 100
  = [mkRow 1 100 0 50 50; mkRow 2 50 0 50 0].
Proof. run_loop. same_rows. Qed.

(** With the full number of periods used, as many rows as periods. *)
Example schedule_loop_full_term :
  schedule_loop 0 10 2 1%Z 100
  = [mkRow 1 100 0 10 90; mkRow 2 90 0 10 80].
Proof. run_loop. same_rows. Qed.

Lemma Rpower_base_1 (y : R) : Rpower 1 y = 1.
Proof. unfold Rpower. rewrite ln_1, Rmult_0_r. apply exp_0. Qed.

(** At a zero quote the rates are zero and the level payment is the
    principal spread over the periods. *)
Example level_payment_zero_rate : level_payment 1200 0 1 12 = Ok 100.
Proof.
  unfold level_payment. rewrite ear_value. simpl.
  unfold periodic_rate. rewrite float_div_nonzero by lra. simpl.
  replace (1 + ((1 + 0 / 200) * (1 + 0 / 200) - 1)) with 1 by lra.
  rewrite float_pow_pos by lra. simpl. rewrite Rpower_base_1.
  replace (1 - 1) with 0 by lra. rewrite pva_zero_rate. simpl.
  rewrite float_div_nonzero by lra. f_equal. lra.
Qed.

Example validate_zero_principal :
  validate (mkMortgageParams 0 5.49 25 5)
  = Raise (ValueError "Principal must be positive.").
Proof. unfold validate. simpl. now decide_cmp. Qed.

Example validate_term_exceeds_amort :
  validate (mkMortgageParams 500000 5.49 5 25)
  = Raise (ValueError "Term years cannot exceed amortization years.").
Proof. unfold validate. simpl. now decide_cmp. Qed.

Example build_schedule_df_daily (self : MortgageSchedule) :
  build_schedule_df self "daily" = Raise (KeyError "Unknown frequency: daily").
Proof. reflexivity. Qed.

(** The power of a zero base to a negative exponent raises inside [pva],
    before the division is reached. *)
Example pva_rate_minus_one : pva (-1) 1 = Raise ZeroDivisionError.
Proof.
  unfold pva. decide_cmp. replace (1 + -1) with 0 by lra.
  rewrite float_pow_zero_base_neg by (simpl; lra). reflexivity.
Qed.

(** * Further properties of the code *)

(** ** Validation and construction *)

(** X1.  [validate] passes exactly the parameters with a positive
    principal, a non-negative quote and [1 <= term_years <= amort_years];
    otherwise it raises the message of the first check that fails, in the
    order principal, quote, amortization, term, term against
    amortization. *)
Theorem validate_reports_first_violation (p : MortgageParams) :
  (validate p = Ok tt <->
     0 < principal p /\ 0 <= quoted_rate_percent p
     /\ (1 <= term_years p <= amort_years p)%Z)
  /\ (validate p = Raise (ValueError "Principal must be positive.") <->
        principal p <= 0)
  /\ (validate p = Raise (ValueError "Quoted rate percent must be non-negative.")
      <-> 0 < principal p /\ quoted_rate_percent p < 0)
  /\ (validate p = Raise (ValueError "Amortization years must be positive.")
      <-> 0 < principal p /\ 0 <= quoted_rate_percent p
          /\ (amort_years p <= 0)%Z)
  /\ (validate p = Raise (ValueError "Term years must be positive.")
      <-> 0 < principal p /\ 0 <= quoted_rate_percent p
          /\ (0 < amort_years p)%Z /\ (term_years p <= 0)%Z)
  /\ (validate p
      = Raise (ValueError "Term years cannot exceed amortization years.")
      <-> 0 < principal p /\ 0 <= quoted_rate_percent p
          /\ (0 < amort_years p)%Z /\ (0 < term_years p)%Z
          /\ (term_years p > amort_years p)%Z).
Proof.
  unfold validate.
  destruct (float_le (principal p) 0) eqn:Hp;
    [apply float_le_true in Hp | apply float_le_false in Hp].
  { repeat split; intros; try discriminate; try lra. }
  destruct (float_lt (quoted_rate_percent p) 0) eqn:Hq;
    [apply float_lt_true in Hq | apply float_lt_false in Hq].
  { repeat split; intros; try discriminate; try lra. }
  destruct (Z.leb_spec (amort_years p) 0).
  { repeat split; intros; try discriminate; try lra; try lia. }
  destruct (Z.leb_spec (term_years p) 0).
  { repeat split; intros; try discriminate; try lra; try lia. }
  destruct (Z.gtb_spec (term_years p) (amort_years p)).
  { repeat split; intros; try discriminate; try lra; try lia. }
  repeat split; intros; try discriminate; try lra; try lia.
Qed.

Lemma init_value (p : MortgageParams) :
  valid p ->
  exists std,
    level_payment (principal p) (quoted_rate_percent p) (amort_years p) 12
    = Ok std
    /\ 0 < std
    /\ __init__ p
       = Ok (mkMortgageSchedule p
               ((1 + quoted_rate_percent p / 200)
                * (1 + quoted_rate_percent p / 200) - 1) std).
Proof.
  intros Hvalid.
  pose proof (proj2 (validate_ok_iff p) Hvalid) as Hval.
  destruct Hvalid as (HP & Hq & Hterm).
  destruct (level_payment_value (principal p) (quoted_rate_percent p)
              (amort_years p) 12 HP Hq ltac:(lia) ltac:(lia))
    as (r & std & _ & Hstd & Hr & Hgt).
  exists std. split; [exact Hstd |]. split; [nra |].
  unfold __init__. rewrite Hval. simpl. rewrite ear_value. simpl.
  rewrite Hstd. reflexivity.
Qed.


(** ** Rates *)


Lemma periodic_rate_positive_base (ear : R) (m : Z) :
  0 < 1 + ear -> m <> 0%Z ->
  periodic_rate ear m = Ok (Rpower (1 + ear) (1 / IZR m) - 1).
Proof.
  intros He Hm.
  assert (HmR : IZR m <> 0) by now apply not_0_IZR.
  assert (Hinv : 1 / IZR m <> 0).
  { unfold Rdiv. rewrite Rmult_1_l. now apply Rinv_neq_0_compat. }
  unfold periodic_rate. rewrite float_div_nonzero by assumption. simpl.
  rewrite float_pow_pos by assumption. reflexivity.
Qed.






(** ** The annuity factor *)

Lemma pva_annuity (r : R) (n : Z) : 0 < 1 + r -> pva r n = Ok (annuity r n).
Proof.
  intros Hbase. unfold annuity.
  destruct (Req_dec_T r 0) as [-> | Hr].
  - rewrite float_eq_refl. apply pva_zero_rate.
  - rewrite (proj2 (float_eq_false r 0) Hr). now apply pva_positive_base.
Qed.

Lemma annuity_0 (r : R) : 0 < 1 + r -> annuity r 0 = 0.
Proof.
  intros Hbase. unfold annuity. destruct (float_eq r 0); [reflexivity |].
  simpl. rewrite Rpower_O by assumption. unfold Rdiv. lra.
Qed.







(** ** The level payment *)

(** The level payment of validated-looking arguments, with the facts the
    schedule needs: it is positive and its annuity over all the periods
    is the principal. *)
Lemma level_payment_annuity (P q : R) (a m : Z) :
  0 < P -> 0 <= q -> (0 < a)%Z -> (0 < m)%Z ->
  exists r pay,
    periodic_rate ((1 + q / 200) * (1 + q / 200) - 1) m = Ok r
    /\ level_payment P q a m = Ok pay
    /\ r = Rpower (1 + ((1 + q / 200) * (1 + q / 200) - 1)) (1 / IZR m) - 1
    /\ 0 <= r /\ 0 < pay
    /\ pay * annuity r (a * m) = P.
Proof.
  intros HP Hq Ha Hm.
  assert (He : 0 <= (1 + q / 200) * (1 + q / 200) - 1) by nra.
  destruct (periodic_rate_value _ m He Hm) as (Hr & Hr0).
  set (r := Rpower (1 + ((1 + q / 200) * (1 + q / 200) - 1)) (1 / IZR m) - 1)
    in *.
  destruct (pva_positive r (a * m) Hr0 ltac:(lia)) as (f & Hf & Hf0 & _).
  pose proof Hf as Hf'. rewrite pva_annuity in Hf' by lra.
  injection Hf' as Hf'.
  exists r, (P / f). split; [exact Hr |]. split.
  - unfold level_payment. rewrite ear_value. simpl. rewrite Hr. simpl.
    rewrite Hf. simpl. apply float_div_nonzero. lra.
  - split; [reflexivity |]. split; [exact Hr0 |]. split.
    + now apply Rdiv_lt_0_compat.
    + rewrite Hf'. field. lra.
Qed.

Lemma quote_zero_iff_rate_zero (q : R) (m : Z) :
  0 <= q -> (0 < m)%Z ->
  Rpower (1 + ((1 + q / 200) * (1 + q / 200) - 1)) (1 / IZR m) - 1 = 0
  <-> q = 0.
Proof.
  intros Hq Hm.
  assert (HmR : 0 < IZR m) by now apply IZR_lt.
  assert (Hinv : 0 < 1 / IZR m) by (apply Rdiv_lt_0_compat; lra).
  split.
  - intros Hz.
    destruct (Rle_lt_or_eq_dec 0 q Hq) as [Hpos | <-]; [| reflexivity].
    exfalso.
    pose proof (Rpower_lt (1 + ((1 + q / 200) * (1 + q / 200) - 1)) 0
                  (1 / IZR m) ltac:(nra) Hinv) as Hlt.
    rewrite Rpower_O in Hlt by nra. lra.
  - intros ->.
    replace (1 + ((1 + 0 / 200) * (1 + 0 / 200) - 1)) with 1 by lra.
    rewrite Rpower_base_1. lra.
Qed.

(** X7.  At a zero quote the level payment is the principal spread evenly
    over the [amort_years * m] periods, for any principal. *)
Theorem level_payment_without_interest (P : R) (a m : Z) :
  (a * m <> 0)%Z ->
  level_payment P 0 a m = Ok (P / IZR (a * m)).
Proof.
  intros Hn.
  assert (Hm : m <> 0%Z) by lia.
  unfold level_payment. rewrite ear_value. simpl.
  rewrite periodic_rate_positive_base by (try lra; assumption). simpl.
  replace (1 + ((1 + 0 / 200) * (1 + 0 / 200) - 1)) with 1 by lra.
  rewrite Rpower_base_1. replace (1 - 1) with 0 by lra.
  rewrite pva_zero_rate. simpl.
  apply float_div_nonzero. now apply not_0_IZR.
Qed.

Lemma level_payment_without_interest_witness :
  level_payment 1200 0 1 12 = Ok (1200 / IZR (1 * 12)).
Proof. apply (level_payment_without_interest 1200 1 12). lia. Defined.

(** X8.  With no periods to pay in ([amort_years * m = 0]) the level
    payment of a non-negative quote raises [ZeroDivisionError]: from
    [1 / m] when [m = 0], and otherwise from the division of the
    principal by a zero annuity factor. *)
Theorem level_payment_without_periods (P q : R) (a m : Z) :
  0 <= q -> (a * m = 0)%Z ->
  level_payment P q a m = Raise ZeroDivisionError.
Proof.
  intros Hq Hn.
  assert (He : 0 <= (1 + q / 200) * (1 + q / 200) - 1) by nra.
  unfold level_payment. rewrite ear_value. simpl.
  destruct (Z.eq_dec m 0) as [-> | Hm].
  - unfold periodic_rate. now rewrite float_div_zero.
  - rewrite periodic_rate_positive_base by (try lra; assumption). simpl.
    rewrite Hn, pva_annuity, annuity_0; try apply float_div_zero.
    + pose proof (Rpower_pos (1 + ((1 + q / 200) * (1 + q / 200) - 1))
                    (1 / IZR m)). lra.
    + pose proof (Rpower_pos (1 + ((1 + q / 200) * (1 + q / 200) - 1))
                    (1 / IZR m)). lra.
Qed.

Lemma level_payment_without_periods_witness :
  level_payment 500000 5.49 0 12 = Raise ZeroDivisionError.
Proof. apply (level_payment_without_periods 500000 5.49 0 12); [lra | lia]. Defined.



(** ** Rapid against ordinary payments *)

(** Over [a] years the annuity at the periodic rate discounts by the
    annual base [x], whatever the number of periods a year. *)
Lemma annuity_root (x : R) (a m : Z) :
  1 < x -> (0 < m)%Z ->
  0 < Rpower x (1 / IZR m) - 1
  /\ annuity (Rpower x (1 / IZR m) - 1) (a * m) * (Rpower x (1 / IZR m) - 1)
     = 1 - Rpower x (IZR (- a)).
Proof.
  intros Hx Hm.
  assert (HmR : 0 < IZR m) by now apply IZR_lt.
  assert (Hinv : 0 < 1 / IZR m) by (apply Rdiv_lt_0_compat; lra).
  assert (Hr : 0 < Rpower x (1 / IZR m) - 1).
  { pose proof (Rpower_lt x 0 (1 / IZR m) Hx Hinv) as Hlt.
    rewrite Rpower_O in Hlt by lra. lra. }
  split; [exact Hr |].
  unfold annuity. rewrite (proj2 (float_eq_false _ 0)) by lra.
  replace (1 + (Rpower x (1 / IZR m) - 1)) with (Rpower x (1 / IZR m)) by lra.
  rewrite Rpower_mult.
  replace (1 / IZR m * IZR (- (a * m))) with (IZR (- a))
    by (rewrite !opp_IZR, mult_IZR; field; lra).
  field. lra.
Qed.

Lemma biweekly_rate_lt_half_monthly (x : R) :
  1 < x -> 2 * (Rpower x (1 / 26) - 1) < Rpower x (1 / 12) - 1.
Proof.
  intros Hx.
  assert (H24 : Rpower x (1 / 26) < Rpower x (1 / 24))
    by (apply Rpower_lt; lra).
  assert (H1 : 1 <= Rpower x (1 / 26)) by (apply Rpower_ge_1; lra).
  replace (1 / 12) with (1 / 24 + 1 / 24) by lra.
  rewrite Rpower_plus. nra.
Qed.

Lemma weekly_rate_lt_quarter_monthly (x : R) :
  1 < x -> 4 * (Rpower x (1 / 52) - 1) < Rpower x (1 / 12) - 1.
Proof.
  intros Hx.
  assert (H48 : Rpower x (1 / 52) < Rpower x (1 / 48))
    by (apply Rpower_lt; lra).
  assert (H1 : 1 <= Rpower x (1 / 52)) by (apply Rpower_ge_1; lra).
  replace (1 / 12) with (1 / 48 + 1 / 48 + (1 / 48 + 1 / 48)) by lra.
  rewrite !Rpower_plus.
  set (c := Rpower x (1 / 48)) in *.
  assert (Hc2 : 1 <= c * c) by nra.
  assert (Hc : 2 * (c - 1) <= c * c - 1) by nra.
  nra.
Qed.

(** A fraction [1/k] of the monthly payment against the level payment at
    [m] periods a year, when [k] periods at the [m]-rate stay below one
    monthly rate and [12 * k < m]. *)
Lemma fraction_of_monthly_exceeds (P q : R) (a m : Z) (k : R) :
  0 < P -> 0 <= q -> (0 < a)%Z -> (0 < m)%Z -> 0 < k ->
  12 * k < IZR m ->
  (forall x, 1 < x ->
     k * (Rpower x (1 / IZR m) - 1) < Rpower x (1 / 12) - 1) ->
  exists std pay,
    level_payment P q a 12 = Ok std
    /\ level_payment P q a m = Ok pay
    /\ 0 < pay /\ pay < std / k.
Proof.
  intros HP Hq Ha Hm Hk Hfreq Hrates.
  destruct (level_payment_annuity P q a 12 HP Hq Ha ltac:(lia))
    as (r12 & std & _ & Hstd & Hr12 & Hr12pos & Hstdpos & Hann12).
  destruct (level_payment_annuity P q a m HP Hq Ha Hm)
    as (r & pay & _ & Hpay & Hr & Hrpos & Hpaypos & Hann).
  exists std, pay. split; [exact Hstd |]. split; [exact Hpay |].
  split; [exact Hpaypos |].
  apply (Rmult_lt_reg_r k); [exact Hk |].
  replace (std / k * k) with std by (field; lra).
  assert (HaR : 0 < IZR a) by now apply IZR_lt.
  destruct (Rle_lt_or_eq_dec 0 q Hq) as [Hqpos | Hq0].
  - set (x := 1 + ((1 + q / 200) * (1 + q / 200) - 1)) in *.
    assert (Hx : 1 < x) by (unfold x; nra).
    destruct (annuity_root x a 12 Hx ltac:(lia)) as (H12 & HD12).
    destruct (annuity_root x a m Hx Hm) as (Hm' & HDm).
    rewrite <- Hr12 in H12, HD12. rewrite <- Hr in Hm', HDm.
    specialize (Hrates x Hx). rewrite <- Hr12, <- Hr in Hrates.
    set (D := 1 - Rpower x (IZR (- a))) in *.
    assert (HD : 0 < D).
    { unfold D. pose proof (Rpower_lt x (IZR (- a)) 0 Hx) as Hlt.
      rewrite Rpower_O in Hlt by lra. rewrite opp_IZR in *. lra. }
    assert (E12 : std * D = P * r12) by (rewrite <- HD12, <- Hann12; ring).
    assert (Em : pay * D = P * r) by (rewrite <- HDm, <- Hann; ring).
    apply (Rmult_lt_reg_r D); [exact HD |]. nra.
  - subst q.
    pose proof (proj2 (quote_zero_iff_rate_zero 0 12 ltac:(lra) ltac:(lia))
                  eq_refl) as Hz12.
    pose proof (proj2 (quote_zero_iff_rate_zero 0 m ltac:(lra) Hm) eq_refl)
      as Hzm.
    rewrite <- Hr12 in Hz12. rewrite <- Hr in Hzm.
    rewrite Hz12 in Hann12. rewrite Hzm in Hann.
    unfold annuity in Hann12, Hann. rewrite float_eq_refl in Hann12, Hann.
    rewrite mult_IZR in Hann12, Hann.
    assert (H1 : 0 < pay * IZR a) by nra.
    assert (H2 : 12 * k * (pay * IZR a) < IZR m * (pay * IZR a))
      by (apply Rmult_lt_compat_r; lra).
    apply (Rmult_lt_reg_l (12 * IZR a)); lra.
Qed.

Lemma rapid_exceeds_ordinary (P q : R) (a : Z) :
  0 < P -> 0 <= q -> (0 < a)%Z ->
  exists std bw w,
    level_payment P q a 12 = Ok std
    /\ level_payment P q a 26 = Ok bw
    /\ level_payment P q a 52 = Ok w
    /\ 0 < bw /\ bw < std / 2
    /\ 0 < w /\ w < std / 4.
Proof.
  intros HP Hq Ha.
  destruct (fraction_of_monthly_exceeds P q a 26 2 HP Hq Ha
              ltac:(lia) ltac:(lra) ltac:(lra)
              biweekly_rate_lt_half_monthly)
    as (std & bw & Hstd & Hbw & Hbwpos & Hbwlt).
  destruct (fraction_of_monthly_exceeds P q a 52 4 HP Hq Ha
              ltac:(lia) ltac:(lra) ltac:(lra)
              weekly_rate_lt_quarter_monthly)
    as (std' & w & Hstd' & Hw & Hwpos & Hwlt).
  assert (std' = std) by congruence. subst std'.
  exists std, bw, w. repeat split; assumption.
Qed.

Lemma payments_unrounded_entries (p : MortgageParams) :
  valid p ->
  exists self v12 v24 v26 v52,
    __init__ p = Ok self
    /\ level_payment (principal p) (quoted_rate_percent p) (amort_years p) 12
       = Ok v12
    /\ level_payment (principal p) (quoted_rate_percent p) (amort_years p) 24
       = Ok v24
    /\ level_payment (principal p) (quoted_rate_percent p) (amort_years p) 26
       = Ok v26
    /\ level_payment (principal p) (quoted_rate_percent p) (amort_years p) 52
       = Ok v52
    /\ payments_unrounded self =
         Ok [ ("monthly", v12); ("semi_monthly", v24); ("bi_weekly", v26);
              ("weekly", v52);
              ("rapid_biweekly", v12 / 2); ("rapid_weekly", v12 / 4) ].
Proof.
  intros Hvalid.
  destruct (init_value p Hvalid) as (std & Hstd & _ & Hinit).
  destruct Hvalid as (HP & Hq & Hterm).
  destruct (level_payment_value (principal p) (quoted_rate_percent p)
              (amort_years p) 24 HP Hq ltac:(lia) ltac:(lia))
    as (_ & v24 & _ & H24 & _).
  destruct (level_payment_value (principal p) (quoted_rate_percent p)
              (amort_years p) 26 HP Hq ltac:(lia) ltac:(lia))
    as (_ & v26 & _ & H26 & _).
  destruct (level_payment_value (principal p) (quoted_rate_percent p)
              (amort_years p) 52 HP Hq ltac:(lia) ltac:(lia))
    as (_ & v52 & _ & H52 & _).
  eexists. exists std, v24, v26, v52.
  split; [exact Hinit |]. repeat (split; [assumption |]).
  unfold payments_unrounded, FREQS. simpl.
  rewrite Hstd. simpl. rewrite H24. simpl. rewrite H26. simpl.
  rewrite H52. reflexivity.
Qed.

(** X10.  For validated parameters each rapid payment is strictly larger
    than the ordinary payment of the same frequency: before rounding,
    [payments["rapid_biweekly"] > payments["bi_weekly"] > 0] and
    [payments["rapid_weekly"] > payments["weekly"] > 0]. *)
Theorem rapid_payment_exceeds_ordinary (p : MortgageParams) :
  validate p = Ok tt ->
  exists self payments bw w rbw rw,
    __init__ p = Ok self
    /\ payments_unrounded self = Ok payments
    /\ dict_get "bi_weekly" payments = Some bw
    /\ dict_get "weekly" payments = Some w
    /\ dict_get "rapid_biweekly" payments = Some rbw
    /\ dict_get "rapid_weekly" payments = Some rw
    /\ 0 < bw /\ bw < rbw
    /\ 0 < w /\ w < rw.
Proof.
  intros Hval. apply validate_ok_iff in Hval.
  destruct (payments_unrounded_entries p Hval)
    as (self & v12 & v24 & v26 & v52 & Hinit & H12 & H24 & H26 & H52 & Hpay).
  destruct Hval as (HP & Hq & Hterm).
  destruct (rapid_exceeds_ordinary (principal p) (quoted_rate_percent p)
              (amort_years p) HP Hq ltac:(lia))
    as (std & bw & w & Hstd & Hbw & Hw & Hbwpos & Hbwlt & Hwpos & Hwlt).
  assert (std = v12) by congruence.
  assert (bw = v26) by congruence.
  assert (w = v52) by congruence. subst std bw w.
  exists self. eexists. exists v26, v52, (v12 / 2), (v12 / 4).
  split; [exact Hinit |]. split; [exact Hpay |].
  repeat split; try reflexivity; assumption.
Qed.

Lemma rapid_payment_exceeds_ordinary_witness :
  exists self payments bw w rbw rw,
    __init__ (mkMortgageParams 500000 5.49 25 5) = Ok self
    /\ payments_unrounded self = Ok payments
    /\ dict_get "bi_weekly" payments = Some bw
    /\ dict_get "weekly" payments = Some w
    /\ dict_get "rapid_biweekly" payments = Some rbw
    /\ dict_get "rapid_weekly" payments = Some rw
    /\ 0 < bw /\ bw < rbw
    /\ 0 < w /\ w < rw.
Proof.
  apply (rapid_payment_exceeds_ordinary (mkMortgageParams 500000 5.49 25 5)).
  exact valid_example.
Defined.

(** ** More on the schedule loop *)

Section LoopAccounts.

Variables r payment : R.






End LoopAccounts.

(** ** More on the schedules of validated parameters *)

Lemma ordinary_not_rapid (freq_key : string) :
  ordinary freq_key ->
  String.eqb freq_key "rapid_biweekly" = false
  /\ String.eqb freq_key "rapid_weekly" = false.
Proof.
  intros (_ & H1 & H2). split; now apply String.eqb_neq.
Qed.

(** The schedule of validated parameters, with the level payment [pay']
    of its frequency next to the scheduled payment [pay]: the two agree
    on an ordinary key, and a rapid payment is the larger one. *)
Lemma schedule_with_level_payment (p : MortgageParams) (freq_key : string) :
  valid p -> recognized freq_key ->
  exists m label r pay pay',
    dict_get freq_key FREQS = Some (m, label)
    /\ (0 < m)%Z
    /\ builds p freq_key m r pay
         (mkDataFrame
            (schedule_loop r pay (Z.to_nat (term_years p * m)) 1%Z
               (principal p))
            label m)
    /\ level_payment (principal p) (quoted_rate_percent p) (amort_years p) m
       = Ok pay'
    /\ 0 <= r /\ 0 < pay' /\ pay' <= pay
    /\ pay' * annuity r (amort_years p * m) = principal p
    /\ principal p * r <= pay
    /\ (ordinary freq_key -> pay = pay').
Proof.
  intros Hvalid Hrec.
  destruct (proj1 (recognized_iff freq_key) Hrec) as (m & label & Hkey).
  destruct (build_schedule_df_valid p freq_key m label Hvalid Hkey)
    as (self & r & pay & Hinit & _ & Hstd & Hr & Hpay & Hr0 & Hcover & Hm & Hdf).
  destruct (init_value p Hvalid) as (std & Hstd' & _ & Hinit').
  rewrite Hinit in Hinit'. injection Hinit' as ->. simpl in *.
  destruct Hvalid as (HP & Hq & Hterm).
  destruct (level_payment_annuity (principal p) (quoted_rate_percent p)
              (amort_years p) m HP Hq ltac:(lia) Hm)
    as (r' & pay' & Hr' & Hpay' & _ & _ & Hpos & Hann).
  assert (r' = r) by congruence. subst r'.
  destruct (rapid_exceeds_ordinary (principal p) (quoted_rate_percent p)
              (amort_years p) HP Hq ltac:(lia))
    as (std0 & bw & w & Hstd0 & Hbw & Hw & _ & Hbwlt & _ & Hwlt).
  assert (std0 = std) by congruence. subst std0.
  assert (Hrel : pay' <= pay /\ (ordinary freq_key -> pay = pay')).
  { unfold FREQS in Hkey. simpl in Hkey.
    repeat match type of Hkey with
    | context [String.eqb ?a ?b] =>
        destruct (String.eqb_spec a b) as [-> | _]
    end; try discriminate; injection Hkey as <- <-;
    unfold schedule_payment in Hpay; simpl in Hpay.
    1-4: assert (pay = pay') by congruence; subst pay;
         split; [lra | reflexivity].
    - injection Hpay as <-. assert (bw = pay') by congruence. subst bw.
      split; [lra |]. intros (_ & Hne & _). now contradiction Hne.
    - injection Hpay as <-. assert (w = pay') by congruence. subst w.
      split; [lra |]. intros (_ & _ & Hne). now contradiction Hne. }
  destruct Hrel as (Hle & Hord).
  exists m, label, r, pay, pay'.
  split; [exact Hkey |]. split; [exact Hm |]. split.
  { eexists. exists label. repeat split; try eassumption. }
  repeat split; assumption.
Qed.






(** X13.  The table built for validated parameters and a key of [FREQS]
    carries the entry of its key ([PaymentsPerYear] and
    [FrequencyLabel]) and numbers its rows 1, 2, 3, ... without a gap. *)
Theorem schedule_rows_are_numbered (p : MortgageParams) (freq_key : string) :
  validate p = Ok tt -> recognized freq_key ->
  exists df,
    schedule_for p freq_key = Ok df
    /\ dict_get freq_key FREQS = Some (PaymentsPerYear df, FrequencyLabel df)
    /\ forall i row,
         nth_error (rows df) i = Some row ->
         Period row = (Z.of_nat i + 1)%Z.
Proof.
  intros Hval Hrec. apply validate_ok_iff in Hval.
  destruct (schedule_with_level_payment p freq_key Hval Hrec)
    as (m & label & r & pay & pay' & Hkey & _ & Hb & _).
  destruct (builds_rows _ _ _ _ _ _ Hb) as (_ & _ & Hfor).
  eexists. split; [exact Hfor |]. simpl. split; [exact Hkey |].
  intros i row Hrow.
  destruct (schedule_loop_row _ _ _ _ _ _ _ Hrow) as (Hperiod & _). lia.
Qed.

Lemma schedule_rows_are_numbered_witness :
  exists df,
    schedule_for (mkMortgageParams 500000 5.49 25 5) "monthly" = Ok df
    /\ dict_get "monthly" FREQS = Some (PaymentsPerYear df, FrequencyLabel df)
    /\ forall i row,
         nth_error (rows df) i = Some row ->
         Period row = (Z.of_nat i + 1)%Z.
Proof.
  apply (schedule_rows_are_numbered
           (mkMortgageParams 500000 5.49 25 5) "monthly").
  - exact valid_example.
  - exact recognized_monthly.
Defined.





(** ** The reported payments and the exports *)

(** X16.  For validated parameters [payment_amounts] returns one entry
    for each key of [FREQS], in the order of [FREQS]; the entry of an
    ordinary key is the rounded level payment of its frequency. *)
Theorem payment_amounts_cover_freqs (p : MortgageParams)
    (np_round : R -> Z -> R) :
  validate p = Ok tt ->
  exists self amounts,
    __init__ p = Ok self
    /\ payment_amounts np_round self = Ok amounts
    /\ map fst amounts = map fst FREQS
    /\ forall freq_key m label,
         dict_get freq_key FREQS = Some (m, label) ->
         ordinary freq_key ->
         exists pay,
           level_payment (principal p) (quoted_rate_percent p)
             (amort_years p) m = Ok pay
           /\ dict_get freq_key amounts = Some (np_round pay 2%Z).
Proof.
  intros Hval. apply validate_ok_iff in Hval.
  destruct (payments_unrounded_entries p Hval)
    as (self & v12 & v24 & v26 & v52 & Hinit & H12 & H24 & H26 & H52 & Hpay).
  exists self. eexists. split; [exact Hinit |]. split.
  { unfold payment_amounts. rewrite Hpay. reflexivity. }
  split; [reflexivity |].
  intros freq_key m label Hkey (_ & Hn1 & Hn2).
  unfold FREQS in Hkey. simpl in Hkey.
  repeat match type of Hkey with
  | context [String.eqb ?a ?b] =>
      destruct (String.eqb_spec a b) as [-> | _]
  end; try discriminate; try congruence; injection Hkey as <- <-;
  eexists; (split; [eassumption | reflexivity]).
Qed.

Lemma payment_amounts_cover_freqs_witness :
  exists self amounts,
    __init__ (mkMortgageParams 500000 5.49 25 5) = Ok self
    /\ payment_amounts (fun v _ => v) self = Ok amounts
    /\ map fst amounts = map fst FREQS
    /\ forall freq_key m label,
         dict_get freq_key FREQS = Some (m, label) ->
         ordinary freq_key ->
         exists pay,
           level_payment 500000 5.49 25 m = Ok pay
           /\ dict_get freq_key amounts = Some pay.
Proof.
  apply (payment_amounts_cover_freqs (mkMortgageParams 500000 5.49 25 5)
           (fun v _ => v)).
  exact valid_example.
Defined.

Lemma map_Some_inj {A : Type} (l1 l2 : list A) :
  map Some l1 = map Some l2 -> l1 = l2.
Proof.
  revert l2. induction l1 as [| x l1 IH]; intros [| y l2] H;
    try discriminate; [reflexivity |].
  injection H as -> H. f_equal. now apply IH.
Qed.

(** The labels [FREQS] gives the keys, read off what each key produced. *)
Lemma labels_of_keys {A : Type} (lab : A -> string) (keys : list string)
    (l : list A) :
  Forall2 (fun key x => exists m, dict_get key FREQS = Some (m, lab x))
    keys l ->
  map (fun key => option_map snd (dict_get key FREQS)) keys
  = map (fun x => Some (lab x)) l.
Proof.
  induction 1 as [| key x keys l (m & Hkey) _ IH]; [reflexivity |].
  cbn [map]. rewrite Hkey, IH. reflexivity.
Qed.

(** The sheet and the curve a key contributes. *)
Lemma excel_loop_spec (self : MortgageSchedule) (keys : list string) :
  Forall (fun key => recognized key
                     /\ exists df, build_schedule_df self key = Ok df) keys ->
  forall writer,
  exists sheets,
    excel_loop self keys writer = Ok (writer ++ sheets)%list
    /\ Forall2 (fun key sheet =>
                  build_schedule_df self key = Ok (snd sheet)
                  /\ exists m, dict_get key FREQS = Some (m, fst sheet))
         keys sheets.
Proof.
  induction 1 as [| key keys (Hrec & df & Hdf) _ IH]; intros writer.
  - exists []. simpl. rewrite app_nil_r. split; constructor.
  - destruct (proj1 (recognized_iff key) Hrec) as (m & label & Hkey).
    destruct (IH (writer ++ [(label, df)])%list) as (sheets & Heq & Hall).
    exists ((label, df) :: sheets).
    cbn [excel_loop]. rewrite Hdf. cbn [bind]. rewrite Hkey.
    rewrite Heq, <- app_assoc. split; [reflexivity |].
    constructor; [| exact Hall]. simpl. eauto.
Qed.


Lemma all_keys_build (p : MortgageParams) (self : MortgageSchedule) :
  valid p -> __init__ p = Ok self ->
  Forall (fun key => recognized key
                     /\ exists df, build_schedule_df self key = Ok df)
    (map fst FREQS).
Proof.
  intros Hvalid Hinit. apply Forall_forall. intros key Hin.
  split; [exact Hin |].
  destruct (builds_valid p key (proj2 (validate_ok_iff p) Hvalid) Hin)
    as (m & r & pay & df & (self' & label & Hinit' & _ & _ & _ & Hdf) & _).
  exists df. congruence.
Qed.

(** X17.  For validated parameters [all_schedules_to_excel] raises
    nothing and hands the writer six sheets, in the order of [FREQS]:
    each holds the schedule of its key and is named by the label of that
    key, and no two sheets share a name. *)
Theorem excel_export_has_one_sheet_per_frequency (p : MortgageParams) :
  validate p = Ok tt ->
  exists self sheets,
    __init__ p = Ok self
    /\ all_schedules_to_excel self = Ok sheets
    /\ map fst sheets
       = ["Monthly"; "Semi-monthly"; "Bi-weekly"; "Weekly";
          "Rapid Bi-weekly"; "Rapid Weekly"]
    /\ NoDup (map fst sheets)
    /\ Forall2 (fun key sheet => build_schedule_df self key = Ok (snd sheet))
         (map fst FREQS) sheets.
Proof.
  intros Hval. apply validate_ok_iff in Hval.
  destruct (init_value p Hval) as (std & _ & _ & Hinit).
  set (self := mkMortgageSchedule p _ std) in Hinit.
  destruct (excel_loop_spec self (map fst FREQS)
              (all_keys_build p self Hval Hinit) [])
    as (sheets & Heq & Hall).
  exists self, sheets. split; [exact Hinit |]. split; [exact Heq |].
  assert (Hnames : map fst sheets
                   = ["Monthly"; "Semi-monthly"; "Bi-weekly"; "Weekly";
                      "Rapid Bi-weekly"; "Rapid Weekly"]).
  { apply map_Some_inj. rewrite map_map.
    rewrite <- (labels_of_keys fst (map fst FREQS) sheets); [reflexivity |].
    eapply Forall2_impl; [| exact Hall]. simpl. now intros key sheet (_ & ?). }
  split; [exact Hnames |]. split.
  - rewrite Hnames.
    repeat (constructor; [simpl; intuition discriminate |]). constructor.
  - eapply Forall2_impl; [| exact Hall]. simpl. now intros key sheet (? & _).
Qed.

Lemma excel_export_has_one_sheet_per_frequency_witness :
  exists self sheets,
    __init__ (mkMortgageParams 500000 5.49 25 5) = Ok self
    /\ all_schedules_to_excel self = Ok sheets
    /\ map fst sheets
       = ["Monthly"; "Semi-monthly"; "Bi-weekly"; "Weekly";
          "Rapid Bi-weekly"; "Rapid Weekly"]
    /\ NoDup (map fst sheets)
    /\ Forall2 (fun key sheet => build_schedule_df self key = Ok (snd sheet))
         (map fst FREQS) sheets.
Proof.
  apply (excel_export_has_one_sheet_per_frequency
           (mkMortgageParams 500000 5.49 25 5)).
  exact valid_example.
Defined.




(** ** Progress of the schedule *)

Section LoopProgress.

Variables r payment : R.



End LoopProgress.




